(** * senza.manaus.iam: IAM server certificates

    A shallow embedding of [senza/manaus/iam.py]: the class
    [IAMServerCertificate] (constructor, comparison operators, the three
    alternative constructors, [__repr__], the ARN classifier and the validity
    check) and the generator [IAM.get_certificates].

    Conventions of the embedding.
    - A [datetime] is a timezone-aware datetime in UTC, which is what
      boto3 delivers and what [datetime.now(timezone.utc)] returns: it is
      the instant it denotes, an integer number of microseconds on the UTC
      time line ([Z]).  Naive datetimes and datetimes of other time zones
      are not values of the model; on UTC datetimes Python's order is the
      order of the instants.
    - A value of type [Union[str, datetime]] is a [value].
    - A [Dict[str, ...]] is a [gmap string ...]; subscripting with an
      absent key raises [KeyError].
    - A raised exception is the [Err] branch of [result].
    - [datetime.now] is a read of an external clock: the clock is a
      function from the number of earlier reads to the instant read, and
      the number of reads is threaded as state.
    - The boto3 client is external: it is a parameter, a transition on an
      abstract service state. *)

From stdpp Require Import gmap strings list.
From Stdlib Require Import ZArith Lia.

Open Scope Z_scope.

(** ** Python values and exceptions *)

(** [Union[str, datetime]], the value type of the metadata dictionary.
    [VDate t] is the timezone-aware UTC datetime of the instant [t]. *)
Inductive value :=
  | VStr (s : string)
  | VDate (t : Z).

#[global] Instance value_eq_dec : EqDecision value.
Proof. solve_decision. Defined.

(** The exceptions raised on the paths modelled here.  [ClientError] is
    botocore's exception for a failure reported by the service; it carries
    the service's error code (["NoSuchEntity"], ["Throttling"], ...). *)
Inductive exn :=
  | KeyError (key : string)
  | TypeError
  | ClientError (code : string).

#[global] Instance exn_eq_dec : EqDecision exn.
Proof. solve_decision. Defined.

Inductive result (A : Type) :=
  | Ok (a : A)
  | Err (e : exn).
Arguments Ok {A} a.
Arguments Err {A} e.

#[global] Instance result_ret : MRet result := λ A a, Ok a.

#[global] Instance result_bind : MBind result := λ A B k r,
  match r with
  | Ok a => k a
  | Err e => Err e
  end.

(** [d[key]] on a dictionary. *)
Definition getitem {V} (d : gmap string V) (key : string) : result V :=
  match d !! key with
  | Some v => Ok v
  | None => Err (KeyError key)
  end.

(** [a == b] on values: a [str] and a [datetime] are never equal. *)
Definition value_eqb (a b : value) : bool := bool_decide (a = b).

(** [a < b] on values: code point order on [str], chronological order on
    UTC [datetime]s, [TypeError] between the two. *)
Definition value_lt (a b : value) : result bool :=
  match a, b with
  | VStr s1, VStr s2 => Ok (String.ltb s1 s2)
  | VDate t1, VDate t2 => Ok (t1 <? t2)
  | _, _ => Err TypeError
  end.

(** [s.startswith(p)]. *)
Definition startswith (s p : string) : bool := String.prefix p s.

(** [sub in s]: [sub] occurs at some offset of [s]. *)
Fixpoint contains (sub s : string) : bool :=
  String.prefix sub s ||
  match s with
  | EmptyString => false
  | String _ s' => contains sub s'
  end.

(** ** IAMServerCertificate *)

Record IAMServerCertificate := mkIAMServerCertificate {
  metadata : gmap string value;
  certificate_body : string;
  certificate_chain : string;
  name : value;
  arn : value;
  expiration : value;
  path : value;
  certificate_id : value;
  upload_date : value
}.

(** [IAMServerCertificate.__init__]: the three arguments are stored, then
    the six metadata properties are read from the dictionary in the order
    of the source; the first absent key raises. *)
Definition init (md : gmap string value) (body chain : string)
  : result IAMServerCertificate :=
  n ← getitem md "ServerCertificateName";
  a ← getitem md "Arn";
  e ← getitem md "Expiration";
  p ← getitem md "Path";
  i ← getitem md "ServerCertificateId";
  u ← getitem md "UploadDate";
  Ok {| metadata := md;
        certificate_body := body;
        certificate_chain := chain;
        name := n;
        arn := a;
        expiration := e;
        path := p;
        certificate_id := i;
        upload_date := u |}.

(** [__lt__]. *)
Definition lt (self other : IAMServerCertificate) : result bool :=
  value_lt (upload_date self) (upload_date other).

(** [__eq__]. *)
Definition eq (self other : IAMServerCertificate) : bool :=
  value_eqb (arn self) (arn other).

(** The [Dict[str, Any]] that [get_server_certificate] returns under
    ['ServerCertificate']: a dictionary of three known keys, each of which
    may be absent.  The entries have the types [__init__] declares. *)
Record boto_dict := mkBotoDict {
  ServerCertificateMetadata : option (gmap string value);
  CertificateBody : option string;
  CertificateChain : option string
}.

Definition getkey {V} (entry : option V) (key : string) : result V :=
  match entry with
  | Some v => Ok v
  | None => Err (KeyError key)
  end.

(** [from_boto_dict]. *)
Definition from_boto_dict (server_certificate : boto_dict)
  : result IAMServerCertificate :=
  md ← getkey (ServerCertificateMetadata server_certificate)
              "ServerCertificateMetadata";
  body ← getkey (CertificateBody server_certificate) "CertificateBody";
  chain ← getkey (CertificateChain server_certificate) "CertificateChain";
  init md body chain.

(** A [ServerCertificate] resource, as [server_certificates.all()] yields
    them: an object with three attributes. *)
Record boto_server_certificate := mkBotoServerCertificate {
  server_certificate_metadata : gmap string value;
  res_certificate_body : string;
  res_certificate_chain : string
}.

(** [from_boto_server_certificate]. *)
Definition from_boto_server_certificate
  (server_certificate : boto_server_certificate)
  : result IAMServerCertificate :=
  init (server_certificate_metadata server_certificate)
       (res_certificate_body server_certificate)
       (res_certificate_chain server_certificate).

(** [arn_is_server_certificate]. *)
Definition arn_is_server_certificate (arn : option string) : bool :=
  match arn with
  | None => false
  | Some arn =>
      startswith arn "arn:aws:iam:" && contains "server-certificate" arn
  end.

(** The external clock: [utcnow k] is the instant that the read of
    [datetime.now(timezone.utc)] preceded by [k] earlier reads returns. *)
Definition clock := nat → Z.

(** [is_valid]: the clock is read only when [when] is [None]. *)
Definition is_valid (utcnow : clock) (self : IAMServerCertificate)
  (when : option Z) (reads : nat) : result bool * nat :=
  let '(when, reads) :=
    match when with
    | Some t => (t, reads)
    | None => (utcnow reads, S reads)
    end in
  (value_lt (VDate when) (expiration self), reads).

(** ** The boto3 client and resource *)

Section Client.
(** The state of the remote service and of the connection to it. *)
Context {Svc : Type}.

(** [client.get_server_certificate(ServerCertificateName=name)]: one
    request, answered by a response dictionary or by an exception. *)
Variable get_server_certificate :
  Svc → string → result (gmap string boto_dict) * Svc.

(** [get_by_name]. *)
Definition get_by_name (name : string) (svc : Svc)
  : result IAMServerCertificate * Svc :=
  let '(response, svc) := get_server_certificate svc name in
  (response ← response;
   server_certificate ← getitem response "ServerCertificate";
   from_boto_dict server_certificate,
   svc).
End Client.

(** ** IAM *)

(** [name is not None and certificate.name != name], with the argument
    [name] of [get_certificates] as [wanted]. *)
Definition name_differs (wanted : option string)
  (certificate : IAMServerCertificate) : bool :=
  match wanted with
  | None => false
  | Some n => negb (value_eqb (name certificate) (VStr n))
  end.

(** What a generator does when it is consumed to its end: the objects it
    yields, in order, then the exception that ends it, if one does. *)
Record trace := mkTrace {
  yielded : list IAMServerCertificate;
  raised : option exn
}.

Definition yield (certificate : IAMServerCertificate) (t : trace) : trace :=
  {| yielded := certificate :: yielded t; raised := raised t |}.

(** [IAM.get_certificates], on the collection [items] that
    [resource.server_certificates.all()] iterates over.  The body of the
    loop runs once per item; an exception in it ends the generator. *)
Fixpoint get_certificates (utcnow : clock) (valid_only : bool)
  (name : option string) (items : list boto_server_certificate)
  (reads : nat) : trace * nat :=
  match items with
  | [] => ({| yielded := []; raised := None |}, reads)
  | server_certificate :: items =>
      match from_boto_server_certificate server_certificate with
      | Err e => ({| yielded := []; raised := Some e |}, reads)
      | Ok certificate =>
          if name_differs name certificate then
            get_certificates utcnow valid_only name items reads
          else if valid_only then
            match is_valid utcnow certificate None reads with
            | (Err e, reads) => ({| yielded := []; raised := Some e |}, reads)
            | (Ok false, reads) =>
                get_certificates utcnow valid_only name items reads
            | (Ok true, reads) =>
                let '(t, reads) :=
                  get_certificates utcnow valid_only name items reads in
                (yield certificate t, reads)
            end
          else
            let '(t, reads) :=
              get_certificates utcnow valid_only name items reads in
            (yield certificate t, reads)
      end
  end.

(** * Predicates of the specification and sample data *)

(** The keys [__init__] reads from the metadata dictionary. *)
Definition metadata_keys : list string :=
  ["ServerCertificateName"; "Arn"; "Expiration"; "Path";
   "ServerCertificateId"; "UploadDate"].

(** The convenience fields of a certificate agree with its metadata
    dictionary. *)
Definition consistent (r : IAMServerCertificate) : Prop :=
  getitem (metadata r) "ServerCertificateName" = Ok (name r) ∧
  getitem (metadata r) "Arn" = Ok (arn r) ∧
  getitem (metadata r) "Expiration" = Ok (expiration r) ∧
  getitem (metadata r) "Path" = Ok (path r) ∧
  getitem (metadata r) "ServerCertificateId" = Ok (certificate_id r) ∧
  getitem (metadata r) "UploadDate" = Ok (upload_date r).

(** The raw entry has every key that the construction reads. *)
Definition complete (d : boto_dict) : Prop :=
  ∃ md, ServerCertificateMetadata d = Some md ∧
        (∀ k, k ∈ metadata_keys → is_Some (md !! k)) ∧
        is_Some (CertificateBody d) ∧
        is_Some (CertificateChain d).

(** The key [k], which the construction reads, is not in the raw entry. *)
Definition absent (d : boto_dict) (k : string) : Prop :=
  (k = "ServerCertificateMetadata" ∧ ServerCertificateMetadata d = None) ∨
  (k = "CertificateBody" ∧ CertificateBody d = None) ∨
  (k = "CertificateChain" ∧ CertificateChain d = None) ∨
  (∃ md, ServerCertificateMetadata d = Some md ∧
         k ∈ metadata_keys ∧ md !! k = None).

(** A store with two certificates

    [cert_a] is uploaded at 1000 and expires at 9000; [cert_b] is uploaded
    at 2000 and expired at 500. *)
Definition boto_metadata (n a : string) (e : Z) (p i : string) (u : Z)
  : gmap string value :=
  <["ServerCertificateName" := VStr n]>
    (<["Arn" := VStr a]>
       (<["Expiration" := VDate e]>
          (<["Path" := VStr p]>
             (<["ServerCertificateId" := VStr i]>
                (<["UploadDate" := VDate u]> ∅))))).

Definition metadata_a : gmap string value :=
  boto_metadata "cert-a" "arn1" 9000 "/" "ASCA1" 1000.

Definition metadata_b : gmap string value :=
  boto_metadata "cert-b" "arn2" 500 "/" "ASCA2" 2000.

Definition cert_a : IAMServerCertificate :=
  mkIAMServerCertificate metadata_a "body-a" "chain-a"
    (VStr "cert-a") (VStr "arn1") (VDate 9000) (VStr "/") (VStr "ASCA1")
    (VDate 1000).

Definition cert_b : IAMServerCertificate :=
  mkIAMServerCertificate metadata_b "body-b" ""
    (VStr "cert-b") (VStr "arn2") (VDate 500) (VStr "/") (VStr "ASCA2")
    (VDate 2000).

Definition resource_a : boto_server_certificate :=
  mkBotoServerCertificate metadata_a "body-a" "chain-a".

Definition resource_b : boto_server_certificate :=
  mkBotoServerCertificate metadata_b "body-b" "".

Definition dict_a : boto_dict :=
  mkBotoDict (Some metadata_a) (Some "body-a") (Some "chain-a").

(** A service that holds [cert-a] only; its state counts the requests. *)
Definition one_certificate_service (requests : nat) (n : string)
  : result (gmap string boto_dict) * nat :=
  (if decide (n = "cert-a")
   then Ok {["ServerCertificate" := dict_a]}
   else Err (ClientError "NoSuchEntity"),
   S requests).

#[global] Instance result_eq_dec {A} `{EqDecision A} : EqDecision (result A).
Proof. solve_decision. Defined.

(** The filters of the listing, as the specification words them: the name
    of the certificate is the name asked for, when one is; the certificate
    is valid at [now], when only valid ones are asked for. *)
Definition selected (valid_only : bool) (wanted : option string) (now : Z)
  (r : IAMServerCertificate) : Prop :=
  match wanted with
  | None => True
  | Some n => name r = VStr n
  end ∧
  (valid_only = true → (is_valid (λ _, now) r None 0%nat).1 = Ok true).

#[global] Instance selected_dec valid_only wanted now r :
  Decision (selected valid_only wanted now r).
Proof. unfold selected. destruct wanted; apply _. Defined.

(** ** __repr__ and the definitions of the further properties *)

(** [format(v, "")], as [str.format_map] applies it to a field: a [str] is
    printed as it is, a [datetime] as [str] prints it.  The printing of a
    [datetime] is the library's: it is the parameter [str_datetime]. *)
Definition format_value (str_datetime : Z → string) (v : value) : string :=
  match v with
  | VStr s => s
  | VDate t => str_datetime t
  end.

(** [__repr__]: ["<IAMServerCertificate: {name}>".format_map(vars(self))].
    The attribute [name] is set in every certificate that exists, so the
    field is always found. *)
Definition repr (str_datetime : Z → string) (self : IAMServerCertificate)
  : string :=
  "<IAMServerCertificate: " +:+ format_value str_datetime (name self) +:+ ">".

(** The first key of [keys], in their order, that [d] does not have. *)
Fixpoint first_absent {V} (keys : list string) (d : gmap string V)
  : option string :=
  match keys with
  | [] => None
  | k :: keys =>
      match d !! k with
      | None => Some k
      | Some _ => first_absent keys d
      end
  end.

(** The response entry that holds what the resource [sc] holds. *)
Definition dict_of_resource (sc : boto_server_certificate) : boto_dict :=
  {| ServerCertificateMetadata := Some (server_certificate_metadata sc);
     CertificateBody := Some (res_certificate_body sc);
     CertificateChain := Some (res_certificate_chain sc) |}.

(** [":" not in s]. *)
Definition colon_free (s : string) : Prop := contains ":" s = false.

(** The clock does not run backwards. *)
Definition monotone (utcnow : clock) : Prop :=
  ∀ j k : nat, (j ≤ k)%nat → utcnow j ≤ utcnow k.

(** A dictionary with all six keys whose expiration is a [str], and the
    certificate that [__init__] builds from it. *)
Definition metadata_str_expiration : gmap string value :=
  <["Expiration" := VStr "2030-01-01"]> metadata_a.

Definition cert_str_expiration : IAMServerCertificate :=
  mkIAMServerCertificate metadata_str_expiration "body-a" "chain-a"
    (VStr "cert-a") (VStr "arn1") (VStr "2030-01-01") (VStr "/")
    (VStr "ASCA1") (VDate 1000).

(** * Properties *)

(** ** Strings *)

Lemma prefix_append (p s : string) :
  String.prefix p s = true ↔ ∃ rest, s = p +:+ rest.
Proof.
  revert s. induction p as [|c p IH]; intros s.
  - split; [intros _; exists s; reflexivity | destruct s; reflexivity].
  - destruct s as [|d s]; simpl.
    + split; [discriminate | intros [rest H]; discriminate].
    + destruct (Ascii.ascii_dec c d) as [->|Hne].
      * rewrite IH. split; intros [rest H]; exists rest.
        -- by rewrite H.
        -- by injection H.
      * split; [discriminate | intros [rest H]; injection H; congruence].
Qed.

Lemma contains_occurs (sub s : string) :
  contains sub s = true ↔ ∃ pre post, s = pre +:+ sub +:+ post.
Proof.
  induction s as [|c s IH].
  - cbn [contains]. rewrite orb_false_r, prefix_append. split.
    + intros [rest H]. by exists EmptyString, rest.
    + intros [[|d pre] [post H]]; [by exists post | discriminate].
  - cbn [contains]. rewrite orb_true_iff, IH, prefix_append. split.
    + intros [[rest H] | (pre & post & H)].
      * by exists EmptyString, rest.
      * exists (String c pre), post. simpl. by rewrite H.
    + intros [[|d pre] [post H]].
      * left. by exists post.
      * right. exists pre, post. simpl in H. by injection H.
Qed.

Lemma value_eqb_eq (a b : value) : value_eqb a b = true ↔ a = b.
Proof. unfold value_eqb. apply bool_decide_eq_true. Qed.

(** ** The ARN classifier *)

(** C5: the classifier answers [False] on [None]; on a string it answers
    [True] exactly when the string begins with ["arn:aws:iam:"] and
    ["server-certificate"] occurs in it.  It rejects the ARN of a user and
    accepts the ARN of a server certificate. *)
Theorem arn_is_server_certificate_spec :
  arn_is_server_certificate None = false ∧
  (∀ s : string,
     arn_is_server_certificate (Some s) = true ↔
       (∃ rest, s = "arn:aws:iam:" +:+ rest) ∧
       (∃ pre post, s = pre +:+ "server-certificate" +:+ post)) ∧
  arn_is_server_certificate (Some "arn:aws:iam::123:user/foo") = false ∧
  arn_is_server_certificate
    (Some "arn:aws:iam::123:server-certificate/foo") = true.
Proof.
  split; [reflexivity | split; [| split; reflexivity]].
  intros s. cbn [arn_is_server_certificate]. unfold startswith.
  by rewrite andb_true_iff, prefix_append, contains_occurs.
Qed.

(** C9: the classifier looks at the prefix and for one occurrence of
    ["server-certificate"], wherever it is: every string that begins with
    ["arn:aws:iam:"] and has the substring at any offset is accepted, also
    when the substring is part of the name of another kind of resource. *)
Theorem arn_is_server_certificate_any_occurrence (s rest pre post : string) :
  s = "arn:aws:iam:" +:+ rest →
  s = pre +:+ "server-certificate" +:+ post →
  arn_is_server_certificate (Some s) = true.
Proof.
  intros Hprefix Hsub. cbn [arn_is_server_certificate]. unfold startswith.
  apply andb_true_iff. split.
  - apply prefix_append. by exists rest.
  - apply contains_occurs. by exists pre, post.
Qed.

Lemma arn_is_server_certificate_any_occurrence_witness :
  arn_is_server_certificate
    (Some "arn:aws:iam::123:user/my-server-certificate") = true.
Proof.
  apply (arn_is_server_certificate_any_occurrence
           "arn:aws:iam::123:user/my-server-certificate"
           ":123:user/my-server-certificate"
           "arn:aws:iam::123:user/my-" "");
    reflexivity.
Defined.

(** ** Validity, equality and ordering *)

(** C2: for a certificate whose expiration is the instant [E], the check
    at the instant [t] answers, without reading the clock, [True] exactly
    when [t < E]: [False] at [E] itself and after it, [True] before it. *)
Theorem is_valid_strict (utcnow : clock) (r : IAMServerCertificate)
  (E t : Z) (reads : nat) :
  expiration r = VDate E →
  (is_valid utcnow r (Some t) reads = (Ok true, reads) ↔ t < E) ∧
  (is_valid utcnow r (Some t) reads = (Ok false, reads) ↔ E ≤ t) ∧
  is_valid utcnow r (Some E) reads = (Ok false, reads) ∧
  is_valid utcnow r (Some (E - 1)) reads = (Ok true, reads) ∧
  is_valid utcnow r (Some (E + 1)) reads = (Ok false, reads).
Proof.
  intros HE. unfold is_valid. rewrite HE. cbn [value_lt].
  repeat split.
  - intros [= H]. by apply Z.ltb_lt.
  - intros H. apply Z.ltb_lt in H. by rewrite H.
  - intros [= H]. by apply Z.ltb_ge.
  - intros H. apply Z.ltb_ge in H. by rewrite H.
  - by rewrite Z.ltb_irrefl.
  - by replace (E - 1 <? E) with true by (symmetry; apply Z.ltb_lt; lia).
  - by replace (E + 1 <? E) with false by (symmetry; apply Z.ltb_ge; lia).
Qed.

(** C3: two certificates are equal exactly when their ARNs are; the answer
    is the same for any two certificates that carry those ARNs, whatever
    their other fields hold. *)
Theorem eq_iff_arn (a b : IAMServerCertificate) :
  (eq a b = true ↔ arn a = arn b) ∧
  (∀ a' b' : IAMServerCertificate,
     arn a' = arn a → arn b' = arn b → eq a' b' = eq a b).
Proof.
  split.
  - apply value_eqb_eq.
  - intros a' b' Ha Hb. unfold eq. by rewrite Ha, Hb.
Qed.

(** C4: for certificates uploaded at the instants [ta] and [tb], [a < b]
    answers [True] exactly when [ta < tb] and [False] otherwise; the answer
    is the same for any two certificates with those upload dates; and two
    certificates with the same upload date are not below one another. *)
Theorem lt_iff_upload_date (a b : IAMServerCertificate) (ta tb : Z) :
  upload_date a = VDate ta →
  upload_date b = VDate tb →
  (lt a b = Ok true ↔ ta < tb) ∧
  (lt a b = Ok false ↔ tb ≤ ta) ∧
  (∀ a' b' : IAMServerCertificate,
     upload_date a' = upload_date a → upload_date b' = upload_date b →
     lt a' b' = lt a b) ∧
  (ta = tb → lt a b = Ok false ∧ lt b a = Ok false).
Proof.
  intros Ha Hb. unfold lt. rewrite Ha, Hb. cbn [value_lt].
  repeat split.
  - intros [= H]. by apply Z.ltb_lt.
  - intros H. apply Z.ltb_lt in H. by rewrite H.
  - intros [= H]. by apply Z.ltb_ge.
  - intros H. apply Z.ltb_ge in H. by rewrite H.
  - intros a' b' Ha' Hb'. by rewrite Ha', Hb'.
  - subst tb. by rewrite Z.ltb_irrefl.
  - subst tb. by rewrite Z.ltb_irrefl.
Qed.

(** ** Construction *)

Lemma bind_Ok {A B} (m : result A) (k : A → result B) (b : B) :
  m ≫= k = Ok b ↔ ∃ a, m = Ok a ∧ k a = Ok b.
Proof.
  destruct m as [a|e]; unfold mbind, result_bind.
  - split; [intros H; by exists a | by intros (? & [= <-] & ?)].
  - split; [done | by intros (? & [=] & _)].
Qed.

Lemma bind_Err {A B} (m : result A) (k : A → result B) (e : exn) :
  m ≫= k = Err e ↔ m = Err e ∨ ∃ a, m = Ok a ∧ k a = Err e.
Proof.
  destruct m as [a|e']; unfold mbind, result_bind.
  - split; [intros H; right; by exists a | by intros [[=] | (? & [= <-] & ?)]].
  - split; [intros [= ->]; by left | by intros [[= ->] | (? & [=] & _)]].
Qed.

Lemma getitem_Ok {V} (d : gmap string V) (k : string) (v : V) :
  getitem d k = Ok v ↔ d !! k = Some v.
Proof. unfold getitem. destruct (d !! k); split; congruence. Qed.

Lemma getitem_Err {V} (d : gmap string V) (k : string) (e : exn) :
  getitem d k = Err e ↔ d !! k = None ∧ e = KeyError k.
Proof.
  unfold getitem. destruct (d !! k); split;
    [done | by intros [] | by intros [= <-] | by intros [_ ->]].
Qed.

Lemma getkey_Ok {V} (o : option V) (k : string) (v : V) :
  getkey o k = Ok v ↔ o = Some v.
Proof. destruct o; simpl; split; congruence. Qed.

Lemma getkey_Err {V} (o : option V) (k : string) (e : exn) :
  getkey o k = Err e ↔ o = None ∧ e = KeyError k.
Proof.
  destruct o; simpl; split;
    [done | by intros [] | by intros [= <-] | by intros [_ ->]].
Qed.

(** What a successful [__init__] has read and stored. *)
Lemma init_Ok (md : gmap string value) (body chain : string)
  (r : IAMServerCertificate) :
  init md body chain = Ok r ↔
    md !! "ServerCertificateName" = Some (name r) ∧
    md !! "Arn" = Some (arn r) ∧
    md !! "Expiration" = Some (expiration r) ∧
    md !! "Path" = Some (path r) ∧
    md !! "ServerCertificateId" = Some (certificate_id r) ∧
    md !! "UploadDate" = Some (upload_date r) ∧
    metadata r = md ∧
    certificate_body r = body ∧
    certificate_chain r = chain.
Proof.
  unfold init. split.
  - intros H.
    repeat (apply bind_Ok in H as (? & ?%getitem_Ok & H)).
    injection H as <-. simpl. by repeat split.
  - intros (Hn & Ha & He & Hp & Hi & Hu & Hm & Hb & Hc).
    unfold getitem. rewrite Hn, Ha, He, Hp, Hi, Hu. simpl.
    destruct r; simpl in *. by subst.
Qed.

(** A failing [__init__] raises [KeyError] for an absent key. *)
Lemma init_Err (md : gmap string value) (body chain : string) (e : exn) :
  init md body chain = Err e →
  ∃ k, e = KeyError k ∧ k ∈ metadata_keys ∧ md !! k = None.
Proof.
  unfold init, metadata_keys. intros H.
  repeat (apply bind_Err in H as [[? ->]%getitem_Err | (? & _ & H)];
          [eexists; split; [reflexivity | split; [set_solver | done]] |]).
  discriminate.
Qed.

Lemma init_consistent (md : gmap string value) (body chain : string)
  (r : IAMServerCertificate) :
  init md body chain = Ok r → metadata r = md ∧ consistent r.
Proof.
  intros (Hn & Ha & He & Hp & Hi & Hu & Hm & _)%init_Ok.
  split; [done |]. unfold consistent. rewrite Hm.
  by repeat split; apply getitem_Ok.
Qed.

Lemma init_total (md : gmap string value) (body chain : string) :
  (∀ k, k ∈ metadata_keys → is_Some (md !! k)) →
  ∃ r, init md body chain = Ok r.
Proof.
  intros H. unfold metadata_keys in H.
  destruct (H "ServerCertificateName") as [n Hn]; [set_solver |].
  destruct (H "Arn") as [a Ha]; [set_solver |].
  destruct (H "Expiration") as [e He]; [set_solver |].
  destruct (H "Path") as [p Hp]; [set_solver |].
  destruct (H "ServerCertificateId") as [i Hi]; [set_solver |].
  destruct (H "UploadDate") as [u Hu]; [set_solver |].
  exists (mkIAMServerCertificate md body chain n a e p i u).
  by apply init_Ok.
Qed.

Lemma init_Ok_keys (md : gmap string value) (body chain : string)
  (r : IAMServerCertificate) :
  init md body chain = Ok r → ∀ k, k ∈ metadata_keys → is_Some (md !! k).
Proof.
  intros (Hn & Ha & He & Hp & Hi & Hu & _)%init_Ok k Hk.
  unfold metadata_keys in Hk.
  repeat (apply elem_of_cons in Hk as [-> | Hk]; [by eexists |]).
  by apply elem_of_nil in Hk.
Qed.

Lemma from_boto_dict_Ok (d : boto_dict) (r : IAMServerCertificate) :
  from_boto_dict d = Ok r ↔
    ∃ md body chain,
      ServerCertificateMetadata d = Some md ∧
      CertificateBody d = Some body ∧
      CertificateChain d = Some chain ∧
      init md body chain = Ok r.
Proof.
  unfold from_boto_dict. split.
  - intros H.
    apply bind_Ok in H as (md & Hmd%getkey_Ok & H).
    apply bind_Ok in H as (body & Hbody%getkey_Ok & H).
    apply bind_Ok in H as (chain & Hchain%getkey_Ok & H).
    by exists md, body, chain.
  - intros (md & body & chain & -> & -> & -> & H). done.
Qed.

Lemma from_boto_dict_Err (d : boto_dict) (e : exn) :
  from_boto_dict d = Err e → ∃ k, e = KeyError k ∧ absent d k.
Proof.
  unfold from_boto_dict, absent. intros H.
  apply bind_Err in H as [[Hmd ->]%getkey_Err | (md & Hmd%getkey_Ok & H)];
    [eexists; split; [reflexivity | by left] |].
  apply bind_Err in H as [[Hb ->]%getkey_Err | (body & _ & H)];
    [eexists; split; [reflexivity | by right; left] |].
  apply bind_Err in H as [[Hc ->]%getkey_Err | (chain & _ & H)];
    [eexists; split; [reflexivity | by right; right; left] |].
  apply init_Err in H as (k & -> & Hk & Hnone).
  exists k. split; [done |]. right; right; right. by exists md.
Qed.

Lemma complete_not_absent (d : boto_dict) (k : string) :
  complete d → ¬ absent d k.
Proof.
  intros (md & Hmd & Hkeys & [body Hb] & [chain Hc]).
  intros [[_ H] | [[_ H] | [[_ H] | (md' & Hmd' & Hk & Hnone)]]];
    try congruence.
  assert (md' = md) as -> by congruence.
  destruct (Hkeys k Hk) as [v Hv]. congruence.
Qed.

Lemma from_boto_dict_complete (d : boto_dict) :
  complete d ↔ ∃ r, from_boto_dict d = Ok r.
Proof.
  split.
  - intros (md & Hmd & Hkeys & [body Hb] & [chain Hc]).
    destruct (init_total md body chain Hkeys) as [r Hr].
    exists r. apply from_boto_dict_Ok. by exists md, body, chain.
  - intros [r (md & body & chain & Hmd & Hb & Hc & Hr)%from_boto_dict_Ok].
    exists md. split; [done |]. split; [by eapply init_Ok_keys |].
    split; by eexists.
Qed.

(** C6: a raw entry is turned into a certificate exactly
    when it has the six metadata keys and the two body keys; when a key is
    absent the construction raises [KeyError], for an absent key, and the
    construction raises nothing else.  The same holds of [__init__] and its
    six keys.  The construction does not look at the types of the values,
    and the other operations do raise: the validity check raises
    [TypeError] on a certificate whose expiration is a [str], and [<]
    raises [TypeError] between a [str] and a [datetime] upload date. *)
Theorem construction_requires_all_fields (d : boto_dict) :
  (complete d ↔ ∃ r, from_boto_dict d = Ok r) ∧
  (¬ complete d ↔ ∃ k, from_boto_dict d = Err (KeyError k) ∧ absent d k) ∧
  (∀ e, from_boto_dict d = Err e → ∃ k, e = KeyError k ∧ absent d k) ∧
  (∀ md body chain,
     ((∀ k, k ∈ metadata_keys → is_Some (md !! k)) ↔
        ∃ r, init md body chain = Ok r) ∧
     (∀ e, init md body chain = Err e →
           ∃ k, e = KeyError k ∧ k ∈ metadata_keys ∧ md !! k = None)) ∧
  (∀ utcnow r s when reads,
     expiration r = VStr s →
     (is_valid utcnow r when reads).1 = Err TypeError) ∧
  (∀ a b s t,
     (upload_date a = VStr s ∧ upload_date b = VDate t) ∨
     (upload_date a = VDate t ∧ upload_date b = VStr s) →
     lt a b = Err TypeError).
Proof.
  split; [apply from_boto_dict_complete |].
  split; [| split; [apply from_boto_dict_Err |]].
  - split.
    + intros Hn. destruct (from_boto_dict d) as [r|e] eqn:H.
      * exfalso. apply Hn, from_boto_dict_complete. by exists r.
      * apply from_boto_dict_Err in H as (k & -> & Hk). by exists k.
    + intros (k & _ & Hk) Hc. by eapply complete_not_absent.
  - split; [| split].
    + intros md body chain. split; [| apply init_Err].
      split; [apply init_total |].
      intros [r Hr]. by eapply init_Ok_keys.
    + intros utcnow r s when reads Hs. unfold is_valid.
      destruct when; by rewrite Hs.
    + intros a b s t [[Ha Hb] | [Ha Hb]]; unfold lt; by rewrite Ha, Hb.
Qed.

(** The missing-field error is not the only error of the class: a
    dictionary with all six keys and a [str] as expiration is accepted by
    [__init__], and the validity check of the certificate raises
    [TypeError], which is no [KeyError]. *)
Lemma missing_field_is_not_the_only_error :
  init metadata_str_expiration "body-a" "chain-a" = Ok cert_str_expiration ∧
  (is_valid (λ _, 5000) cert_str_expiration None 0%nat).1 = Err TypeError ∧
  ¬ (∀ e, (is_valid (λ _, 5000) cert_str_expiration None 0%nat).1 = Err e →
          ∃ k, e = KeyError k).
Proof.
  split; [reflexivity |]. split; [reflexivity |].
  intros H. destruct (H TypeError eq_refl) as [k Hk]. discriminate Hk.
Qed.

(** ** The operations on the store with two certificates *)

Example init_a : init metadata_a "body-a" "chain-a" = Ok cert_a.
Proof. vm_compute. reflexivity. Qed.

Example from_boto_dict_a : from_boto_dict dict_a = Ok cert_a.
Proof. reflexivity. Qed.

Example from_boto_dict_no_chain :
  from_boto_dict (mkBotoDict (Some metadata_a) (Some "body-a") None)
  = Err (KeyError "CertificateChain").
Proof. reflexivity. Qed.

Example init_no_path :
  init (delete "Path" metadata_a) "body-a" "chain-a" = Err (KeyError "Path").
Proof. reflexivity. Qed.

Example get_certificates_defaults :
  get_certificates (λ _, 5000) true None [resource_a; resource_b] 0%nat
  = ({| yielded := [cert_a]; raised := None |}, 2%nat).
Proof. reflexivity. Qed.

Example get_certificates_all :
  get_certificates (λ _, 5000) false None [resource_a; resource_b] 0%nat
  = ({| yielded := [cert_a; cert_b]; raised := None |}, 0%nat).
Proof. reflexivity. Qed.

Example get_certificates_by_name :
  get_certificates (λ _, 5000) false (Some "cert-b") [resource_a; resource_b]
    0%nat
  = ({| yielded := [cert_b]; raised := None |}, 0%nat).
Proof. reflexivity. Qed.

Example sort_pair :
  lt cert_a cert_b = Ok true ∧ lt cert_b cert_a = Ok false.
Proof. split; reflexivity. Qed.

Lemma is_valid_strict_witness :
  expiration cert_a = VDate 9000 ∧
  is_valid (λ _, 0) cert_a (Some 9000) 0%nat = (Ok false, 0%nat) ∧
  is_valid (λ _, 0) cert_a (Some 8999) 0%nat = (Ok true, 0%nat).
Proof.
  destruct (is_valid_strict (λ _, 0) cert_a 9000 8999 0%nat eq_refl)
    as (Hlt & _ & Hat & _).
  split; [reflexivity | split; [exact Hat | apply Hlt; lia]].
Defined.

Lemma lt_iff_upload_date_witness :
  upload_date cert_a = VDate 1000 ∧
  upload_date cert_b = VDate 2000 ∧
  lt cert_a cert_b = Ok true.
Proof.
  destruct (lt_iff_upload_date cert_a cert_b 1000 2000 eq_refl eq_refl)
    as (Hlt & _).
  split; [reflexivity | split; [reflexivity | apply Hlt; lia]].
Defined.

(** The certificate built from a complete raw entry, field by field. *)
Lemma from_boto_dict_fields (d : boto_dict) :
  complete d →
  ∃ r, from_boto_dict d = Ok r ∧
       ServerCertificateMetadata d ≫= (.!! "ServerCertificateName")
         = Some (name r) ∧
       ServerCertificateMetadata d ≫= (.!! "Arn") = Some (arn r) ∧
       ServerCertificateMetadata d ≫= (.!! "Expiration")
         = Some (expiration r) ∧
       ServerCertificateMetadata d ≫= (.!! "Path") = Some (path r) ∧
       ServerCertificateMetadata d ≫= (.!! "ServerCertificateId")
         = Some (certificate_id r) ∧
       ServerCertificateMetadata d ≫= (.!! "UploadDate")
         = Some (upload_date r) ∧
       CertificateBody d = Some (certificate_body r) ∧
       CertificateChain d = Some (certificate_chain r).
Proof.
  intros [r Hr]%from_boto_dict_complete. exists r. split; [done |].
  apply from_boto_dict_Ok in Hr
    as (md & body & chain & -> & -> & -> & Hinit).
  apply init_Ok in Hinit as (Hn & Ha & He & Hp & Hi & Hu & _ & <- & <-).
  simpl. by repeat split.
Qed.

(** C8: a raw entry that has every key is turned into a certificate whose
    eight fields are the eight values of the entry, unchanged. *)
Theorem from_boto_dict_roundtrip (d : boto_dict) :
  complete d →
  ∃ r, from_boto_dict d = Ok r ∧
       ServerCertificateMetadata d ≫= (.!! "ServerCertificateName")
         = Some (name r) ∧
       ServerCertificateMetadata d ≫= (.!! "Arn") = Some (arn r) ∧
       ServerCertificateMetadata d ≫= (.!! "Expiration")
         = Some (expiration r) ∧
       ServerCertificateMetadata d ≫= (.!! "Path") = Some (path r) ∧
       ServerCertificateMetadata d ≫= (.!! "ServerCertificateId")
         = Some (certificate_id r) ∧
       ServerCertificateMetadata d ≫= (.!! "UploadDate")
         = Some (upload_date r) ∧
       CertificateBody d = Some (certificate_body r) ∧
       CertificateChain d = Some (certificate_chain r).
Proof.
  intros (md & Hmd & Hkeys & [body Hbody] & [chain Hchain]).
  destruct (init_total md body chain Hkeys) as [r Hinit].
  exists r. rewrite Hmd, Hbody, Hchain. split.
  - apply from_boto_dict_Ok. by exists md, body, chain.
  - apply init_Ok in Hinit as (Hn & Ha & He & Hp & Hi & Hu & _ & <- & <-).
    simpl. by repeat split.
Qed.

Lemma complete_dict_a : complete dict_a.
Proof.
  exists metadata_a. split; [reflexivity |]. split; [| split; by eexists].
  intros k Hk. unfold metadata_keys in Hk.
  repeat (apply elem_of_cons in Hk as [-> | Hk]; [by eexists |]).
  by apply elem_of_nil in Hk.
Defined.

Lemma from_boto_dict_roundtrip_witness :
  ∃ r, from_boto_dict dict_a = Ok r ∧
       name r = VStr "cert-a" ∧
       expiration r = VDate 9000 ∧
       certificate_chain r = "chain-a".
Proof.
  destruct (from_boto_dict_roundtrip dict_a complete_dict_a)
    as (r & Hr & Hn & _ & He & _ & _ & _ & _ & Hc).
  exists r. split; [exact Hr |].
  injection Hn as <-. injection He as <-. injection Hc as <-.
  by repeat split.
Defined.

Lemma from_boto_server_certificate_consistent
  (sc : boto_server_certificate) (r : IAMServerCertificate) :
  from_boto_server_certificate sc = Ok r →
  metadata r = server_certificate_metadata sc ∧ consistent r.
Proof. apply init_consistent. Qed.

Lemma from_boto_dict_consistent (d : boto_dict) (r : IAMServerCertificate) :
  from_boto_dict d = Ok r →
  ServerCertificateMetadata d = Some (metadata r) ∧ consistent r.
Proof.
  intros (md & body & chain & Hmd & _ & _ & Hinit)%from_boto_dict_Ok.
  apply init_consistent in Hinit as [-> Hcons]. done.
Qed.

(** Every certificate that the generator yields is built from one of the
    items by [from_boto_server_certificate]. *)
Lemma get_certificates_yields_constructed (utcnow : clock)
  (valid_only : bool) (wanted : option string)
  (items : list boto_server_certificate) (reads : nat)
  (r : IAMServerCertificate) :
  r ∈ yielded (get_certificates utcnow valid_only wanted items reads).1 →
  ∃ sc, sc ∈ items ∧ from_boto_server_certificate sc = Ok r.
Proof.
  revert reads. induction items as [|sc items IH]; intros reads;
    cbn [get_certificates].
  - simpl. by intros ?%elem_of_nil.
  - assert (∀ reads',
      r ∈ yielded (get_certificates utcnow valid_only wanted items reads').1 →
      ∃ sc', sc' ∈ sc :: items ∧ from_boto_server_certificate sc' = Ok r)
      as Hrest.
    { intros reads' (sc' & Hin & Hsc')%IH. exists sc'.
      split; [by apply elem_of_cons; right | done]. }
    assert (∀ c reads',
      from_boto_server_certificate sc = Ok c →
      r ∈ yielded
            (let '(t, reads) :=
               get_certificates utcnow valid_only wanted items reads' in
             (yield c t, reads)).1 →
      ∃ sc', sc' ∈ sc :: items ∧ from_boto_server_certificate sc' = Ok r)
      as Hyield.
    { intros c reads' Hc.
      destruct (get_certificates utcnow valid_only wanted items reads')
        as [t reads''] eqn:Hrec.
      simpl. intros [-> | Hin]%elem_of_cons.
      - exists sc. split; [by apply elem_of_cons; left | done].
      - apply (Hrest reads'). by rewrite Hrec. }
    destruct (from_boto_server_certificate sc) as [c|e] eqn:Hc;
      [| simpl; by intros ?%elem_of_nil].
    destruct (name_differs wanted c); [apply Hrest |].
    destruct valid_only; [| by apply Hyield].
    unfold is_valid.
    destruct (value_lt (VDate (utcnow reads)) (expiration c)) as [[|]|e];
      [by apply Hyield | apply Hrest | simpl; by intros ?%elem_of_nil].
Qed.

(** C10: a certificate keeps the metadata dictionary it was built from, and
    its six convenience fields are the entries of that dictionary.  This
    holds of every certificate that [__init__] and the alternative
    constructors return, that [get_by_name] returns and that
    [get_certificates] yields; the other operations return truth values
    and leave certificates as they are. *)
Theorem convenience_fields_consistent :
  (∀ md body chain r,
     init md body chain = Ok r → metadata r = md ∧ consistent r) ∧
  (∀ d r,
     from_boto_dict d = Ok r →
     ServerCertificateMetadata d = Some (metadata r) ∧ consistent r) ∧
  (∀ sc r,
     from_boto_server_certificate sc = Ok r →
     metadata r = server_certificate_metadata sc ∧ consistent r) ∧
  (∀ (Svc : Type) (call : Svc → string → result (gmap string boto_dict) * Svc)
     n svc r,
     (get_by_name call n svc).1 = Ok r → consistent r) ∧
  (∀ utcnow valid_only wanted items reads r,
     r ∈ yielded (get_certificates utcnow valid_only wanted items reads).1 →
     consistent r).
Proof.
  split; [apply init_consistent |].
  split; [apply from_boto_dict_consistent |].
  split; [apply from_boto_server_certificate_consistent |].
  split.
  - intros Svc call n svc r. unfold get_by_name.
    destruct (call svc n) as [response svc']. simpl. intros H.
    apply bind_Ok in H as (resp & _ & H).
    apply bind_Ok in H as (d & _ & H).
    by apply from_boto_dict_consistent in H as [_ H].
  - intros utcnow valid_only wanted items reads r
      (sc & _ & Hsc)%get_certificates_yields_constructed.
    by apply from_boto_server_certificate_consistent in Hsc as [_ H].
Qed.

(** ** get_by_name *)

Example get_by_name_present :
  get_by_name one_certificate_service "cert-a" 0%nat = (Ok cert_a, 1%nat).
Proof. reflexivity. Qed.

Example get_by_name_missing :
  get_by_name one_certificate_service "cert-z" 0%nat
  = (Err (ClientError "NoSuchEntity"), 1%nat).
Proof. reflexivity. Qed.

(** C7: [get_by_name] sends one request and leaves the service in the
    state that request leaves it in.  An exception of the service, the
    report that the name does not exist or any other, is raised unchanged.
    When the service answers with the complete entry of the certificate of
    that name, the certificate built from the entry is returned, and its
    name is the name asked for. *)
Theorem get_by_name_outcomes {Svc : Type}
  (get_server_certificate :
     Svc → string → result (gmap string boto_dict) * Svc)
  (n : string) (svc : Svc) :
  (get_by_name get_server_certificate n svc).2
    = (get_server_certificate svc n).2 ∧
  ((get_server_certificate svc n).1 = Err (ClientError "NoSuchEntity") →
   (get_by_name get_server_certificate n svc).1
     = Err (ClientError "NoSuchEntity")) ∧
  (∀ e, (get_server_certificate svc n).1 = Err e →
        (get_by_name get_server_certificate n svc).1 = Err e) ∧
  (∀ response d,
     (get_server_certificate svc n).1 = Ok response →
     response !! "ServerCertificate" = Some d →
     complete d →
     ServerCertificateMetadata d ≫= (.!! "ServerCertificateName")
       = Some (VStr n) →
     ∃ r, (get_by_name get_server_certificate n svc).1 = Ok r ∧
          from_boto_dict d = Ok r ∧
          name r = VStr n).
Proof.
  unfold get_by_name.
  destruct (get_server_certificate svc n) as [response svc'].
  cbn [fst snd].
  split; [reflexivity |]. split; [by intros -> |]. split; [by intros e -> |].
  intros resp d -> Hd Hcomplete Hname.
  destruct (from_boto_dict_fields d Hcomplete) as (r & Hr & Hn & _).
  exists r. split; [| split; [done | congruence]].
  unfold mbind, result_bind, getitem. by rewrite Hd.
Qed.

Lemma get_by_name_outcomes_witness :
  (get_by_name one_certificate_service "cert-a" 0%nat).2 = 1%nat ∧
  (get_by_name one_certificate_service "cert-z" 0%nat).1
    = Err (ClientError "NoSuchEntity") ∧
  ∃ r, (get_by_name one_certificate_service "cert-a" 0%nat).1 = Ok r ∧
       name r = VStr "cert-a".
Proof.
  destruct (get_by_name_outcomes one_certificate_service "cert-a" 0%nat)
    as (Hstate & _ & _ & Hfound).
  destruct (get_by_name_outcomes one_certificate_service "cert-z" 0%nat)
    as (_ & Hmissing & _).
  split; [exact Hstate |]. split; [apply Hmissing; reflexivity |].
  destruct (Hfound {["ServerCertificate" := dict_a]} dict_a
              eq_refl eq_refl complete_dict_a eq_refl)
    as (r & Hr & _ & Hn).
  by exists r.
Defined.

(** ** get_certificates *)


(** What one turn of the loop does with an item whose certificate is [c],
    in terms of what the generator does on the items that follow. *)
Lemma get_certificates_cons (utcnow : clock) (valid_only : bool)
  (wanted : option string) (sc : boto_server_certificate)
  (items : list boto_server_certificate) (reads : nat)
  (c : IAMServerCertificate) :
  from_boto_server_certificate sc = Ok c →
  let keep := negb (name_differs wanted c) in
  let reads' := if keep && valid_only then S reads else reads in
  let rest := get_certificates utcnow valid_only wanted items reads' in
  get_certificates utcnow valid_only wanted (sc :: items) reads =
    if keep then
      if valid_only then
        match value_lt (VDate (utcnow reads)) (expiration c) with
        | Ok true => (yield c rest.1, rest.2)
        | Ok false => rest
        | Err e => ({| yielded := []; raised := Some e |}, reads')
        end
      else (yield c rest.1, rest.2)
    else rest.
Proof.
  intros Hc. cbn [get_certificates]. rewrite Hc.
  destruct (name_differs wanted c); cbn [negb andb]; [done |].
  destruct valid_only; cbn [andb].
  - unfold is_valid.
    destruct (value_lt (VDate (utcnow reads)) (expiration c)) as [[|]|e];
      [| done | done].
    by destruct (get_certificates utcnow true wanted items (S reads)).
  - by destruct (get_certificates utcnow false wanted items reads).
Qed.

Lemma get_certificates_reads_le (utcnow : clock) (valid_only : bool)
  (wanted : option string) (items : list boto_server_certificate)
  (reads : nat) :
  (reads ≤ (get_certificates utcnow valid_only wanted items reads).2)%nat.
Proof.
  revert reads. induction items as [|sc items IH]; intros reads; [done |].
  destruct (from_boto_server_certificate sc) as [c|e] eqn:Hc;
    [| cbn [get_certificates]; by rewrite Hc].
  rewrite (get_certificates_cons _ _ _ _ _ _ c Hc).
  destruct (name_differs wanted c); cbn [negb andb]; [apply IH |].
  destruct valid_only; cbn [andb].
  - pose proof (IH (S reads)).
    destruct (value_lt (VDate (utcnow reads)) (expiration c)) as [[|]|e];
      simpl; lia.
  - apply IH.
Qed.


(** With [valid_only], each certificate yielded was valid at the instant
    that one of the clock reads of this call returned. *)
Lemma get_certificates_valid (utcnow : clock) (wanted : option string)
  (items : list boto_server_certificate) (reads : nat) :
  Forall (λ r, ∃ k,
            (reads ≤ k < (get_certificates utcnow true wanted items reads).2)%nat
            ∧ (is_valid utcnow r None k).1 = Ok true)
    (yielded (get_certificates utcnow true wanted items reads).1).
Proof.
  revert reads. induction items as [|sc items IH]; intros reads;
    [by constructor |].
  destruct (from_boto_server_certificate sc) as [c|e] eqn:Hc;
    [| cbn [get_certificates]; rewrite Hc; by constructor].
  rewrite (get_certificates_cons _ _ _ _ _ _ c Hc).
  destruct (name_differs wanted c) eqn:Hn; cbn [negb andb]; [apply IH |].
  pose proof (get_certificates_reads_le utcnow true wanted items (S reads))
    as Hle.
  destruct (value_lt (VDate (utcnow reads)) (expiration c)) as [[|]|e] eqn:Hv;
    simpl; [| | by constructor].
  - constructor.
    + exists reads. split; [lia | done].
    + eapply Forall_impl; [apply IH |].
      intros r (k & Hk & Hr). exists k. split; [lia | done].
  - eapply Forall_impl; [apply IH |].
    intros r (k & Hk & Hr). exists k. split; [lia | done].
Qed.






(** * Further properties *)

(** ** Construction *)

Lemma first_absent_None {V} (keys : list string) (d : gmap string V) :
  first_absent keys d = None ↔ ∀ k, k ∈ keys → is_Some (d !! k).
Proof.
  induction keys as [|k keys IH]; simpl.
  - split; [by intros _ k ?%elem_of_nil | done].
  - destruct (d !! k) as [v|] eqn:Hk.
    + rewrite IH. split.
      * intros H k' [-> | Hin]%elem_of_cons; [by eexists | by apply H].
      * intros H k' Hin. apply H, elem_of_cons. by right.
    + split; [done |]. intros H.
      destruct (H k) as [v Hv]; [apply elem_of_cons; by left | congruence].
Qed.

Lemma first_absent_Some {V} (keys : list string) (d : gmap string V)
  (k : string) :
  first_absent keys d = Some k →
  ∃ before after,
    keys = before ++ k :: after ∧
    d !! k = None ∧
    ∀ k', k' ∈ before → is_Some (d !! k').
Proof.
  induction keys as [|k0 keys IH]; simpl; [done |].
  destruct (d !! k0) as [v|] eqn:Hk0.
  - intros (before & after & -> & Hk & Hbefore)%IH.
    exists (k0 :: before), after. split; [done | split; [done |]].
    intros k' [-> | Hin]%elem_of_cons; [by eexists | by apply Hbefore].
  - intros [= <-]. exists [], keys. split; [done | split; [done |]].
    by intros k' ?%elem_of_nil.
Qed.

Lemma first_absent_split {V} (d : gmap string V) (k : string)
  (before after : list string) :
  d !! k = None →
  (∀ k', k' ∈ before → is_Some (d !! k')) →
  first_absent (before ++ k :: after) d = Some k.
Proof.
  intros Hk. induction before as [|k0 before IH]; intros Hbefore; simpl.
  - by rewrite Hk.
  - destruct (Hbefore k0) as [v ->]; [apply elem_of_cons; by left |].
    apply IH. intros k' Hin. apply Hbefore, elem_of_cons. by right.
Qed.

Lemma init_Err_first_absent (md : gmap string value) (body chain : string)
  (e : exn) :
  init md body chain = Err e ↔
    ∃ k, first_absent metadata_keys md = Some k ∧ e = KeyError k.
Proof.
  unfold init, metadata_keys, getitem. cbn [first_absent].
  repeat match goal with
         | |- context [md !! ?key] => destruct (md !! key); cbn
         end;
    split; try (intros [= <-]; by eexists);
    try (intros (k & [= <-] & ->); done);
    try done; by intros (k & [=] & _).
Qed.

(** X1: [__init__] raises exactly when a metadata key is absent, and the
    [KeyError] it raises names the first absent key in the order in which
    the source reads the six keys: every key read before it is present. *)
Theorem init_raises_first_absent_key (md : gmap string value)
  (body chain : string) (e : exn) :
  init md body chain = Err e ↔
    ∃ k before after,
      metadata_keys = before ++ k :: after ∧
      md !! k = None ∧
      (∀ k', k' ∈ before → is_Some (md !! k')) ∧
      e = KeyError k.
Proof.
  rewrite init_Err_first_absent. split.
  - intros (k & (before & after & Hkeys & Hk & Hbefore)%first_absent_Some
              & ->).
    by exists k, before, after.
  - intros (k & before & after & Hkeys & Hk & Hbefore & ->).
    exists k. split; [| done]. rewrite Hkeys. by apply first_absent_split.
Qed.

(** X2: a key that [__init__] does not read changes nothing but the
    dictionary that the certificate keeps: with the entry added, the
    construction fails as before, or succeeds with the same fields and
    with the extended dictionary as [metadata]. *)
Theorem init_ignores_other_keys (md : gmap string value)
  (body chain : string) (k : string) (v : value) :
  k ∉ metadata_keys →
  (∀ e, init md body chain = Err e →
        init (<[k:=v]> md) body chain = Err e) ∧
  (∀ r, init md body chain = Ok r →
        init (<[k:=v]> md) body chain
        = Ok {| metadata := <[k:=v]> md;
                certificate_body := certificate_body r;
                certificate_chain := certificate_chain r;
                name := name r;
                arn := arn r;
                expiration := expiration r;
                path := path r;
                certificate_id := certificate_id r;
                upload_date := upload_date r |}).
Proof.
  intros Hk.
  assert (∀ k', k' ∈ metadata_keys → <[k:=v]> md !! k' = md !! k') as Hsame.
  { intros k' Hk'. apply lookup_insert_ne. congruence. }
  unfold metadata_keys in Hsame.
  assert (init (<[k:=v]> md) body chain
          = r ← init md body chain;
            Ok {| metadata := <[k:=v]> md;
                  certificate_body := certificate_body r;
                  certificate_chain := certificate_chain r;
                  name := name r;
                  arn := arn r;
                  expiration := expiration r;
                  path := path r;
                  certificate_id := certificate_id r;
                  upload_date := upload_date r |}) as ->.
  { unfold init, getitem.
    rewrite !Hsame by set_solver.
    repeat match goal with
           | |- context [md !! ?key] => destruct (md !! key); cbn; [| done]
           end.
    done. }
  split; [by intros e -> | by intros r ->].
Qed.

Lemma init_ignores_other_keys_witness :
  ("Tags" ∉ metadata_keys) ∧
  ∃ r, init (<["Tags" := VStr "blue"]> metadata_a) "body-a" "chain-a" = Ok r ∧
       name r = VStr "cert-a" ∧
       metadata r = <["Tags" := VStr "blue"]> metadata_a.
Proof.
  assert ("Tags" ∉ metadata_keys) as Hk.
  { unfold metadata_keys. intros H.
    repeat (apply elem_of_cons in H as [[=] | H]). by apply elem_of_nil in H. }
  split; [exact Hk |].
  destruct (init_ignores_other_keys metadata_a "body-a" "chain-a" "Tags"
              (VStr "blue") Hk) as [_ Hok].
  eexists. split; [apply (Hok cert_a); reflexivity | by split].
Defined.

(** ** get_by_name *)

Lemma from_boto_dict_of_resource (sc : boto_server_certificate) :
  from_boto_dict (dict_of_resource sc) = from_boto_server_certificate sc.
Proof. reflexivity. Qed.

Lemma get_certificates_singleton (utcnow : clock)
  (sc : boto_server_certificate) (reads : nat) :
  (get_certificates utcnow false None [sc] reads).1 =
    match from_boto_server_certificate sc with
    | Ok r => {| yielded := [r]; raised := None |}
    | Err e => {| yielded := []; raised := Some e |}
    end.
Proof.
  cbn [get_certificates]. by destruct (from_boto_server_certificate sc).
Qed.

(** X3: the two ways to a certificate agree.  When the service answers a
    request by name with the entry that holds what a resource of the
    listing holds, [get_by_name] returns the very certificate that the
    unfiltered listing yields for that resource, and raises the exception
    that ends the listing when the resource has no certificate. *)
Theorem get_by_name_agrees_with_listing {Svc : Type}
  (get_server_certificate :
     Svc → string → result (gmap string boto_dict) * Svc)
  (n : string) (svc : Svc) (response : gmap string boto_dict)
  (sc : boto_server_certificate) (utcnow : clock) (reads : nat) :
  (get_server_certificate svc n).1 = Ok response →
  response !! "ServerCertificate" = Some (dict_of_resource sc) →
  (get_certificates utcnow false None [sc] reads).1 =
    match (get_by_name get_server_certificate n svc).1 with
    | Ok r => {| yielded := [r]; raised := None |}
    | Err e => {| yielded := []; raised := Some e |}
    end.
Proof.
  intros Hcall Hentry. rewrite get_certificates_singleton.
  unfold get_by_name.
  destruct (get_server_certificate svc n) as [resp svc'].
  cbn [fst] in *. subst resp.
  unfold mbind, result_bind, getitem. rewrite Hentry.
  by rewrite from_boto_dict_of_resource.
Qed.

Lemma get_by_name_agrees_with_listing_witness :
  (get_certificates (λ _, 0) false None [resource_a] 0%nat).1 =
    match (get_by_name one_certificate_service "cert-a" 0%nat).1 with
    | Ok r => {| yielded := [r]; raised := None |}
    | Err e => {| yielded := []; raised := Some e |}
    end.
Proof.
  apply (get_by_name_agrees_with_listing one_certificate_service "cert-a"
           0%nat {["ServerCertificate" := dict_a]} resource_a);
    reflexivity.
Defined.

(** X4: what [get_by_name] can raise.  It raises the exception of the
    service, or [KeyError]: for ['ServerCertificate'] when the response
    has no such entry, and for a key that the entry lacks when the entry is
    not complete.  It raises nothing else. *)
Theorem get_by_name_raises {Svc : Type}
  (get_server_certificate :
     Svc → string → result (gmap string boto_dict) * Svc)
  (n : string) (svc : Svc) :
  (∀ e, (get_by_name get_server_certificate n svc).1 = Err e →
        (get_server_certificate svc n).1 = Err e ∨
        ∃ response,
          (get_server_certificate svc n).1 = Ok response ∧
          ((response !! "ServerCertificate" = None ∧
            e = KeyError "ServerCertificate") ∨
           (∃ d k, response !! "ServerCertificate" = Some d ∧
                   absent d k ∧ e = KeyError k))) ∧
  (∀ response,
     (get_server_certificate svc n).1 = Ok response →
     response !! "ServerCertificate" = None →
     (get_by_name get_server_certificate n svc).1
       = Err (KeyError "ServerCertificate")) ∧
  (∀ response d,
     (get_server_certificate svc n).1 = Ok response →
     response !! "ServerCertificate" = Some d →
     ¬ complete d →
     ∃ k, (get_by_name get_server_certificate n svc).1 = Err (KeyError k) ∧
          absent d k).
Proof.
  unfold get_by_name.
  destruct (get_server_certificate svc n) as [[response|e'] svc'];
    cbn [fst]; unfold mbind, result_bind, getitem.
  - split; [| split].
    + intros e H. right. exists response. split; [done |].
      destruct (response !! "ServerCertificate") as [d|] eqn:Hd.
      * right. destruct (from_boto_dict_Err d e H) as (k & -> & Hk).
        by exists d, k.
      * left. split; [done | congruence].
    + intros resp [= <-] ->. done.
    + intros resp d [= <-] -> Hincomplete.
      destruct (from_boto_dict d) as [r|e] eqn:Hr.
      * exfalso. apply Hincomplete, from_boto_dict_complete. by exists r.
      * destruct (from_boto_dict_Err d e Hr) as (k & -> & Hk). by exists k.
  - split; [| split].
    + intros e [= <-]. by left.
    + by intros resp [=].
    + by intros resp d [=].
Qed.

(** ** Equality and ordering *)

(** X5: [==] is an equivalence on certificates, and it is coarser than
    identity of all fields: equal certificates are [==]. *)
Theorem eq_equivalence :
  (∀ a, eq a a = true) ∧
  (∀ a b, eq a b = eq b a) ∧
  (∀ a b c, eq a b = true → eq b c = true → eq a c = true) ∧
  (∀ a b, a = b → eq a b = true).
Proof.
  unfold eq, value_eqb. repeat split.
  - intros a. by apply bool_decide_eq_true.
  - intros a b. apply bool_decide_ext. split; congruence.
  - intros a b c Hab%bool_decide_eq_true Hbc%bool_decide_eq_true.
    apply bool_decide_eq_true. congruence.
  - intros a b ->. by apply bool_decide_eq_true.
Qed.

(** X6: on certificates whose upload dates are timezone-aware UTC
    datetimes, as boto3 delivers them, [<] is a strict weak order, which
    is what sorting needs: it is irreflexive, asymmetric and transitive,
    any two certificates are ordered or have the same upload date, and
    having the same upload date is transitive. *)
Theorem lt_strict_weak_order (a b c : IAMServerCertificate) (ta tb tc : Z) :
  upload_date a = VDate ta →
  upload_date b = VDate tb →
  upload_date c = VDate tc →
  lt a a = Ok false ∧
  (lt a b = Ok true → lt b a = Ok false) ∧
  (lt a b = Ok true → lt b c = Ok true → lt a c = Ok true) ∧
  (lt a b = Ok true ∨ lt b a = Ok true ∨ upload_date a = upload_date b) ∧
  (lt a b = Ok false → lt b a = Ok false →
   lt b c = Ok false → lt c b = Ok false →
   lt a c = Ok false ∧ lt c a = Ok false).
Proof.
  intros Ha Hb Hc. unfold lt. rewrite Ha, Hb, Hc. cbn [value_lt].
  destruct (Z.ltb_spec ta ta), (Z.ltb_spec ta tb), (Z.ltb_spec tb ta),
    (Z.ltb_spec tb tc), (Z.ltb_spec tc tb), (Z.ltb_spec ta tc),
    (Z.ltb_spec tc ta);
    try lia; repeat split; try done; try (intros; lia); intros;
    try (right; right; f_equal; lia); try (left; done);
    try (right; left; done).
Qed.

Lemma lt_strict_weak_order_witness :
  lt cert_a cert_a = Ok false ∧
  (lt cert_a cert_b = Ok true → lt cert_b cert_a = Ok false).
Proof.
  destruct (lt_strict_weak_order cert_a cert_b cert_b 1000 2000 2000
              eq_refl eq_refl eq_refl) as (Hirr & Hasym & _).
  by split.
Defined.

(** ** Validity *)

(** X8: with the instant taken from the clock, validity only ends.
    Under a clock that does not run backwards, a certificate that
    [is_valid()] finds valid at one read of the clock is found valid at
    every earlier read, and a certificate found expired at one read is
    found expired at every later read. *)
Theorem is_valid_antitone (utcnow : clock) (r : IAMServerCertificate)
  (j k : nat) :
  monotone utcnow →
  (j ≤ k)%nat →
  ((is_valid utcnow r None k).1 = Ok true →
   (is_valid utcnow r None j).1 = Ok true) ∧
  ((is_valid utcnow r None j).1 = Ok false →
   (is_valid utcnow r None k).1 = Ok false).
Proof.
  intros Hmono Hjk. specialize (Hmono j k Hjk).
  unfold is_valid. cbn [fst].
  destruct (expiration r) as [s|E]; cbn [value_lt]; [done |].
  destruct (Z.ltb_spec (utcnow j) E), (Z.ltb_spec (utcnow k) E);
    try done; lia.
Qed.

Lemma is_valid_antitone_witness :
  (is_valid (λ n, 8998 + Z.of_nat n) cert_a None 2%nat).1 = Ok false ∧
  (is_valid (λ n, 8998 + Z.of_nat n) cert_a None 5%nat).1 = Ok false.
Proof.
  assert (monotone (λ n, 8998 + Z.of_nat n)) as Hmono
    by (intros j k Hjk; lia).
  destruct (is_valid_antitone (λ n, 8998 + Z.of_nat n) cert_a 2 5 Hmono)
    as [_ Hexpired]; [lia |].
  split; [reflexivity | apply Hexpired; reflexivity].
Defined.

(** ** get_certificates *)

Lemma trace_eta (t : trace) :
  {| yielded := yielded t; raised := raised t |} = t.
Proof. by destruct t. Qed.

(** The generator on [l1 ++ l2]: the run on [l1], then, when it ends
    without an exception, the run on [l2] from the clock reads on. *)
Lemma get_certificates_app (utcnow : clock) (valid_only : bool)
  (wanted : option string) (l1 l2 : list boto_server_certificate)
  (reads : nat) :
  get_certificates utcnow valid_only wanted (l1 ++ l2) reads =
    let run1 := get_certificates utcnow valid_only wanted l1 reads in
    let run2 := get_certificates utcnow valid_only wanted l2 run1.2 in
    match raised run1.1 with
    | Some _ => run1
    | None =>
        ({| yielded := yielded run1.1 ++ yielded run2.1;
            raised := raised run2.1 |}, run2.2)
    end.
Proof.
  revert reads. induction l1 as [|sc l1 IH]; intros reads.
  - cbn. destruct (get_certificates utcnow valid_only wanted l2 reads)
      as [[ys e] n]. done.
  - rewrite <- app_comm_cons.
    destruct (from_boto_server_certificate sc) as [c|e] eqn:Hc;
      [| cbn [get_certificates]; rewrite Hc; done].
    rewrite !(get_certificates_cons _ _ _ _ _ _ c Hc).
    assert (∀ reads',
      let rest := get_certificates utcnow valid_only wanted (l1 ++ l2) reads' in
      let run1 := get_certificates utcnow valid_only wanted l1 reads' in
      let run2 := get_certificates utcnow valid_only wanted l2 run1.2 in
      (yield c rest.1, rest.2) =
        match raised (yield c run1.1) with
        | Some _ => (yield c run1.1, run1.2)
        | None =>
            ({| yielded := yielded (yield c run1.1) ++ yielded run2.1;
                raised := raised run2.1 |}, run2.2)
        end) as Hyield.
    { intros reads'. cbn zeta. rewrite IH. cbn zeta. cbn [yield raised].
      by destruct (raised (get_certificates utcnow valid_only wanted l1
                             reads').1). }
    destruct (name_differs wanted c); cbn [negb andb]; [apply IH |].
    destruct valid_only; cbn [andb]; [| apply Hyield].
    destruct (value_lt (VDate (utcnow reads)) (expiration c)) as [[|]|e];
      [apply Hyield | apply IH | done].
Qed.

(** X10: the listing of a collection in two parts.  When the generator
    ends without an exception on the first part, it yields on the whole
    what it yields on the first part, then what it yields on the second
    with the clock read on, and it ends as on the second part.  When an
    exception ends it on the first part, the second part is not touched:
    the whole behaves as the first part alone. *)
Theorem get_certificates_concat (utcnow : clock) (valid_only : bool)
  (wanted : option string) (l1 l2 : list boto_server_certificate)
  (reads : nat) :
  let run := get_certificates utcnow valid_only wanted (l1 ++ l2) reads in
  let run1 := get_certificates utcnow valid_only wanted l1 reads in
  let run2 := get_certificates utcnow valid_only wanted l2 run1.2 in
  (raised run1.1 = None →
   yielded run.1 = yielded run1.1 ++ yielded run2.1 ∧
   raised run.1 = raised run2.1 ∧
   run.2 = run2.2) ∧
  (∀ e, raised run1.1 = Some e → run = run1).
Proof.
  cbn zeta. rewrite get_certificates_app. cbn zeta. split.
  - by intros ->.
  - by intros e ->.
Qed.

(** X11: a malformed item ends the listing where it stands.  When the
    items before it are listed without an exception and its metadata lack
    a key, the generator yields what it yields on the items before, then
    raises [KeyError] for the first key that is absent, whatever items
    follow and whether or not the filters would have kept the item. *)
Theorem get_certificates_fail_fast (utcnow : clock) (valid_only : bool)
  (wanted : option string) (good rest : list boto_server_certificate)
  (bad : boto_server_certificate) (k : string) (reads : nat) :
  raised (get_certificates utcnow valid_only wanted good reads).1 = None →
  first_absent metadata_keys (server_certificate_metadata bad) = Some k →
  get_certificates utcnow valid_only wanted (good ++ bad :: rest) reads =
    ({| yielded :=
          yielded (get_certificates utcnow valid_only wanted good reads).1;
        raised := Some (KeyError k) |},
     (get_certificates utcnow valid_only wanted good reads).2).
Proof.
  intros Hgood Hk. rewrite get_certificates_app. cbn zeta. rewrite Hgood.
  assert (from_boto_server_certificate bad = Err (KeyError k)) as Hbad.
  { apply init_Err_first_absent. by exists k. }
  cbn [get_certificates]. rewrite Hbad. cbn. by rewrite app_nil_r.
Qed.

Lemma get_certificates_fail_fast_witness :
  get_certificates (λ _, 5000) true None
    ([resource_a] ++
     mkBotoServerCertificate (delete "Arn" metadata_b) "body-b" ""
     :: [resource_a]) 0%nat
  = ({| yielded := [cert_a]; raised := Some (KeyError "Arn") |}, 1%nat).
Proof.
  apply (get_certificates_fail_fast (λ _, 5000) true None [resource_a]
           [resource_a]
           (mkBotoServerCertificate (delete "Arn" metadata_b) "body-b" "")
           "Arn" 0%nat);
    reflexivity.
Defined.

(** Without [valid_only] the clock is not read, and the trace does not
    depend on the number of earlier reads. *)
Lemma get_certificates_no_clock (utcnow utcnow' : clock)
  (wanted : option string) (items : list boto_server_certificate)
  (reads reads' : nat) :
  get_certificates utcnow false wanted items reads
  = ((get_certificates utcnow' false wanted items reads').1, reads).
Proof.
  induction items as [|sc items IH]; [done |].
  destruct (from_boto_server_certificate sc) as [c|e] eqn:Hc;
    [| cbn [get_certificates]; by rewrite Hc].
  rewrite !(get_certificates_cons _ _ _ _ _ _ c Hc).
  destruct (name_differs wanted c); cbn [negb andb]; [done |].
  by rewrite IH.
Qed.

(** X13: how often the clock is read.  Without [valid_only] it is not
    read at all, and the listing is the same under every clock.  With
    [valid_only], when no exception ends the generator, it is read once
    for each certificate that passes the name filter, which are those the
    listing without [valid_only] yields; and what is yielded with
    [valid_only] is a subsequence of what is yielded without. *)
Theorem get_certificates_clock_reads (utcnow : clock)
  (wanted : option string) (items : list boto_server_certificate)
  (reads : nat) :
  let all := get_certificates utcnow false wanted items reads in
  let valid := get_certificates utcnow true wanted items reads in
  all.2 = reads ∧
  (∀ utcnow' reads',
     (get_certificates utcnow' false wanted items reads').1 = all.1) ∧
  (raised valid.1 = None →
   raised all.1 = None ∧
   valid.2 = (reads + length (yielded all.1))%nat ∧
   yielded valid.1 `sublist_of` yielded all.1).
Proof.
  cbn zeta. split; [| split].
  - by rewrite (get_certificates_no_clock utcnow utcnow wanted items reads
                  reads).
  - intros utcnow' reads'.
    by rewrite (get_certificates_no_clock utcnow utcnow' wanted items reads
                  reads').
  - rewrite (get_certificates_no_clock utcnow utcnow wanted items reads 0).
    cbn [fst]. revert reads.
    induction items as [|sc items IH]; intros reads.
    + intros _. cbn. split; [done |]. split; [lia | constructor].
    + destruct (from_boto_server_certificate sc) as [c|e] eqn:Hc;
        [| cbn [get_certificates]; by rewrite Hc].
      rewrite !(get_certificates_cons _ _ _ _ _ _ c Hc).
      destruct (name_differs wanted c); cbn [negb andb]; [apply IH |].
      rewrite (get_certificates_no_clock utcnow utcnow wanted items 0 0).
      cbn [fst snd yield yielded raised length].
      destruct (value_lt (VDate (utcnow reads)) (expiration c)) as [[|]|e];
        [| | done].
      * cbn [fst snd yield yielded raised].
        intros (Hnone & Hreads & Hsub)%IH.
        split; [done |]. split; [lia | by apply sublist_skip].
      * intros (Hnone & Hreads & Hsub)%IH.
        split; [done |]. split; [lia | by apply sublist_cons].
Qed.

(** X14: the listing without filters.  When every item has its six
    metadata keys, the generator yields the certificate of each item, one
    for one and in the order of the items, ends without an exception and
    does not read the clock; expired certificates are among them. *)
Theorem get_certificates_unfiltered (utcnow : clock)
  (items : list boto_server_certificate) (rs : list IAMServerCertificate)
  (reads : nat) :
  Forall2 (λ sc r, from_boto_server_certificate sc = Ok r) items rs →
  get_certificates utcnow false None items reads
  = ({| yielded := rs; raised := None |}, reads).
Proof.
  intros Hall. induction Hall as [|sc r items rs Hsc _ IH]; [done |].
  rewrite (get_certificates_cons _ _ _ _ _ _ r Hsc).
  cbn [name_differs negb andb]. by rewrite IH.
Qed.

Lemma get_certificates_unfiltered_witness :
  get_certificates (λ _, 5000) false None [resource_b; resource_a] 7%nat
  = ({| yielded := [cert_b; cert_a]; raised := None |}, 7%nat).
Proof.
  apply get_certificates_unfiltered.
  constructor; [reflexivity |]. constructor; [reflexivity | constructor].
Defined.

(** X15: under a clock that does not run backwards, every certificate
    that the listing with [valid_only] yields was valid at the first clock
    read of the call, however long the consumer takes between items. *)
Theorem get_certificates_valid_at_start (utcnow : clock)
  (wanted : option string) (items : list boto_server_certificate)
  (reads : nat) :
  monotone utcnow →
  Forall (λ r, (is_valid utcnow r (Some (utcnow reads)) reads).1 = Ok true)
    (yielded (get_certificates utcnow true wanted items reads).1).
Proof.
  intros Hmono. eapply Forall_impl; [apply get_certificates_valid |].
  intros r (k & [Hk _] & Hvalid). unfold is_valid in *. cbn [fst] in *.
  destruct (expiration r) as [s|E]; cbn [value_lt] in *; [done |].
  injection Hvalid as Hlt%Z.ltb_lt. f_equal. apply Z.ltb_lt.
  specialize (Hmono reads k Hk). lia.
Qed.

Lemma get_certificates_valid_at_start_witness :
  Forall (λ r, (is_valid (λ k, 5000 + Z.of_nat k) r (Some 5000) 0%nat).1
               = Ok true)
    (yielded
       (get_certificates (λ k, 5000 + Z.of_nat k) true None
          [resource_a; resource_b] 0%nat).1).
Proof.
  apply (get_certificates_valid_at_start (λ k, 5000 + Z.of_nat k) None
           [resource_a; resource_b] 0%nat).
  intros j k Hjk. lia.
Defined.

(** ** The ARN classifier *)

Lemma append_assoc (s1 s2 s3 : string) :
  (s1 +:+ s2) +:+ s3 = s1 +:+ (s2 +:+ s3).
Proof.
  induction s1 as [|c s1 IH]; [done |].
  exact (f_equal (String c) IH).
Qed.

Lemma length_append (s1 s2 : string) :
  String.length (s1 +:+ s2) = (String.length s1 + String.length s2)%nat.
Proof.
  induction s1 as [|c s1 IH]; [done |].
  exact (f_equal S IH).
Qed.

Lemma contains_length (sub s : string) :
  contains sub s = true → (String.length sub ≤ String.length s)%nat.
Proof.
  intros (pre & post & ->)%contains_occurs.
  rewrite !length_append. lia.
Qed.

Lemma contains_after_prefix (rest : string) :
  contains "server-certificate" ("arn:aws:iam:" +:+ rest)
  = contains "server-certificate" rest.
Proof. reflexivity. Qed.

(** X16: the marker lies behind the prefix.  An ARN is accepted exactly
    when it is ["arn:aws:iam:"] followed by a text in which
    ["server-certificate"] occurs; an accepted ARN therefore has at least
    thirty characters, and the empty string is rejected. *)
Theorem arn_is_server_certificate_marker_after_prefix (s : string) :
  (arn_is_server_certificate (Some s) = true ↔
     ∃ rest, s = "arn:aws:iam:" +:+ rest ∧
             contains "server-certificate" rest = true) ∧
  (arn_is_server_certificate (Some s) = true →
   (30 ≤ String.length s)%nat).
Proof.
  assert (arn_is_server_certificate (Some s) = true ↔
            ∃ rest, s = "arn:aws:iam:" +:+ rest ∧
                    contains "server-certificate" rest = true) as Hiff.
  { cbn [arn_is_server_certificate]. unfold startswith.
    rewrite andb_true_iff, prefix_append. split.
    - intros [[rest ->] Hsub]. exists rest.
      by rewrite contains_after_prefix in Hsub.
    - intros (rest & -> & Hsub). split; [by exists rest |].
      by rewrite contains_after_prefix. }
  split; [exact Hiff |].
  intros (rest & -> & Hlen%contains_length)%Hiff.
  rewrite length_append. simpl in *. lia.
Qed.

(** X17: an accepted ARN stays accepted when text is appended to it. *)
Theorem arn_is_server_certificate_extends (s t : string) :
  arn_is_server_certificate (Some s) = true →
  arn_is_server_certificate (Some (s +:+ t)) = true.
Proof.
  cbn [arn_is_server_certificate]. unfold startswith.
  rewrite !andb_true_iff, !prefix_append, !contains_occurs.
  intros [[rest ->] (pre & post & Hsub)]. split.
  - exists (rest +:+ t). by rewrite append_assoc.
  - exists pre, (post +:+ t). by rewrite Hsub, !append_assoc.
Qed.

Lemma arn_is_server_certificate_extends_witness :
  arn_is_server_certificate
    (Some ("arn:aws:iam::123:server-certificate/foo" +:+ "/bar")) = true.
Proof.
  apply (arn_is_server_certificate_extends
           "arn:aws:iam::123:server-certificate/foo" "/bar").
  reflexivity.
Defined.

(** X18: only the partition [aws] is recognised.  An ARN whose partition,
    the text between the first two colons, is not ["aws"] is rejected,
    whatever follows: the server certificates of other partitions
    (["aws-cn"], ["aws-us-gov"]) are not classified as such. *)
Theorem arn_is_server_certificate_other_partition (p tail : string) :
  colon_free p →
  p ≠ "aws" →
  arn_is_server_certificate (Some ("arn:" +:+ p +:+ ":" +:+ tail)) = false.
Proof.
  unfold colon_free. intros Hfree Hp.
  cbn [arn_is_server_certificate]. unfold startswith.
  apply andb_false_iff. left. apply not_true_is_false.
  intros [rest H]%prefix_append.
  destruct p as [|c1 [|c2 [|c3 [|c4 p]]]]; try discriminate H.
  - injection H as -> -> -> _. done.
  - injection H as -> -> -> -> _. cbn in Hfree.
    destruct p; discriminate Hfree.
Qed.

Lemma arn_is_server_certificate_other_partition_witness :
  arn_is_server_certificate
    (Some ("arn:" +:+ "aws-cn" +:+ ":" +:+ "iam::123:server-certificate/foo"))
  = false.
Proof.
  apply (arn_is_server_certificate_other_partition "aws-cn"
           "iam::123:server-certificate/foo");
    [reflexivity | discriminate].
Defined.

(** ** __repr__ *)

Lemma append_cancel_r (s1 s2 : string) (c : Ascii.ascii) :
  s1 +:+ String c "" = s2 +:+ String c "" → s1 = s2.
Proof.
  revert s2. induction s1 as [|c1 s1 IH]; intros [|c2 s2] H.
  - done.
  - injection H as _ H. by destruct s2.
  - injection H as _ H. by destruct s1.
  - injection H as -> H. f_equal. by apply IH.
Qed.

(** X19: the label tells the name and nothing else.  Certificates of the
    same name have the same label, whatever their ARNs and dates; and
    certificates whose names are [str]s and whose labels are the same have
    the same name. *)
Theorem repr_names (str_datetime : Z → string)
  (a b : IAMServerCertificate) :
  (name a = name b → repr str_datetime a = repr str_datetime b) ∧
  (∀ s1 s2, name a = VStr s1 → name b = VStr s2 →
            repr str_datetime a = repr str_datetime b → s1 = s2) ∧
  (∀ s, name a = VStr s →
        repr str_datetime a = "<IAMServerCertificate: " +:+ s +:+ ">").
Proof.
  unfold repr. split; [by intros -> |]. split.
  - intros s1 s2 -> ->. cbn [format_value].
    intros H%(inj (String.append _)). by apply append_cancel_r in H.
  - by intros s ->.
Qed.

Example repr_a : repr (λ _, "") cert_a = "<IAMServerCertificate: cert-a>".
Proof. reflexivity. Qed.
